(** * Hull & White one-factor short-rate model
    ql/ShortRateModels/OneFactorModels/hullwhite.hpp

    A shallow embedding of the header: the fitting parameter
    [HullWhite::FittingParameter] with its implementation [HullWhiteImpl],
    the short-rate dynamics [HullWhite::Dynamics] and the inline
    [HullWhite::dynamics].

    The header computes on [double].  The embedding is written once, over
    an interface [Double] of the operations the code uses, and read in two
    ways.  [Binary64] takes a [double] for an IEEE 754 binary64 value,
    with the kernel's primitive floats: it is the reading of what the code
    computes, in which every operation rounds and overflow, NaN and a
    division by zero have results.  [ExactReal] takes a [double] for the
    real number it stands for: it is the reading in which the
    documentation writes its formulas.  Statements about control flow,
    effects and failures are proved for every instance of the interface. *)

From Stdlib Require Import List PeanoNat Reals Lra Floats.
Import ListNotations.

(** ** The arithmetic of [double] *)

(** The operations of [double] that the header uses: the literals [1.0]
    and [0.5], [+ - * /], unary minus and the macro [QL_EXP]
    (ql/qldefines.hpp, [std::exp]); and, for the bond-price functions
    that the header only declares, the literals [0.0], [2.0] and [0.25]
    and the comparison [<].  None of them throws. *)
Class Double (D : Type) : Type := {
  lit_one  : D;
  lit_half : D;
  lit_zero : D;
  lit_two  : D;
  lit_quarter : D;
  dadd : D -> D -> D;
  dsub : D -> D -> D;
  dmul : D -> D -> D;
  ddiv : D -> D -> D;
  dneg : D -> D;
  dltb : D -> D -> bool;
  QL_EXP : D -> D
}.

Declare Scope double_scope.
Delimit Scope double_scope with dbl.
Notation "x + y" := (dadd x y) : double_scope.
Notation "x - y" := (dsub x y) : double_scope.
Notation "x * y" := (dmul x y) : double_scope.
Notation "x / y" := (ddiv x y) : double_scope.
Notation "- x" := (dneg x) : double_scope.
Notation "x <? y" := (dltb x y) : double_scope.

(** ** Exceptions and the world of the term structures *)

(** A call either returns or throws ([QuantLib::Error]). *)
Inductive result (E X : Type) : Type :=
| Return (x : X)
| Throw (e : E).
Arguments Return {E X} x.
Arguments Throw {E X} e.

Section Embedding.
Context {D : Type} {double_ops : Double D} {Error : Type}.

Definition Time : Type := D.
Definition Rate : Type := D.
Definition Array : Type := list D.

(** Modelled from the spec: the class [TermStructure] (ql/termstructure.hpp)
    is an external collaborator with the queries [forward(t) -> rate] and
    [discount(t) -> factor], either of which may fail with an error for a
    time outside the curve's domain. *)
Record TermStructure : Type := {
  forward  : Time -> result Error Rate;
  discount : Time -> result Error D
}.

(** A [RelinkableHandle<TermStructure>] names a link shared by all its
    copies; relinking changes the curve every copy sees.  A handle linked
    to nothing is one linked to a curve that answers no query. *)
Definition RelinkableHandle : Type := nat.

(** The queries the program makes to term structures, oldest first. *)
Inductive Query : Type :=
| QForward  (h : RelinkableHandle) (t : Time)
| QDiscount (h : RelinkableHandle) (t : Time).

Record World : Type := {
  link    : RelinkableHandle -> TermStructure;
  queries : list Query
}.

(** Computations: they read and change the world, and return or throw. *)
Definition M (X : Type) : Type := World -> result Error X * World.

Definition ret {X} (x : X) : M X := fun w => (Return x, w).

Definition bind {X Y} (c : M X) (k : X -> M Y) : M Y :=
  fun w =>
    match c w with
    | (Return x, w') => k x w'
    | (Throw e, w') => (Throw e, w')
    end.

(** What a caller sees of a call when it only uses the value returned:
    the value changed by [f], or the exception. *)
Definition result_map {X Y} (f : X -> Y) (r : result Error X)
  : result Error Y :=
  match r with
  | Return x => Return (f x)
  | Throw e => Throw e
  end.

Definition outcome {X} (c : M X) (w : World) : result Error X := fst (c w).
Definition world_after {X} (c : M X) (w : World) : World := snd (c w).

(** [h->forward(t)]: one query of the curve [h] is linked to now. *)
Definition query_forward (h : RelinkableHandle) (t : Time) : M Rate :=
  fun w =>
    (forward (link w h) t,
     {| link := link w; queries := queries w ++ [QForward h t] |}).

(** [h->discount(t)]. *)
Definition query_discount (h : RelinkableHandle) (t : Time) : M D :=
  fun w =>
    (discount (link w h) t,
     {| link := link w; queries := queries w ++ [QDiscount h t] |}).

(** [h.linkTo(ts)]. *)
Definition linkTo (h : RelinkableHandle) (ts : TermStructure) : M unit :=
  fun w =>
    (Return tt,
     {| link := fun h' => if Nat.eqb h' h then ts else link w h';
        queries := queries w |}).

Notation "x <- c ;; k" := (bind c (fun x => k))
  (at level 61, c at next level, right associativity).

(** ** [Parameter] and [Parameter::ParameterImpl] *)

(** The interface [Parameter::ParameterImpl]: one virtual method,
    [value(const Array& params, Time t)]. *)
Record ParameterImpl : Type := {
  value : Array -> Time -> M D
}.

(** Modelled from the spec: the class [Parameter] (ql/ShortRateModels/
    parameter.hpp; [Parameter_] here, the bare name being reserved) is a
    time-dependent function object; its value at time [t] is computed by
    its implementation, to which it passes its own parameter array. *)
Record Parameter_ : Type := {
  params_ : Array;
  impl_   : ParameterImpl
}.

(** [Parameter::operator()(Time t)]. *)
Definition Parameter_call (p : Parameter_) (t : Time) : M D :=
  value (impl_ p) (params_ p) t.

(** ** [HullWhite::FittingParameter::HullWhiteImpl] *)

Record HullWhiteImpl : Type := {
  termStructure_ : RelinkableHandle;
  a_     : D;
  sigma_ : D
}.

(** The constructor: the initialiser list copies the handle and the two
    constants, the body is empty. *)
Definition HullWhiteImpl_new
    (termStructure : RelinkableHandle) (a sigma : D) : M HullWhiteImpl :=
  ret {| termStructure_ := termStructure; a_ := a; sigma_ := sigma |}.

(** The bracket [sigma_*(1.0 - QL_EXP(-a_*t))/a_] of [value]. *)
Definition HullWhiteImpl_temp (a sigma : D) (t : Time) : D :=
  (sigma * (lit_one - QL_EXP (- a * t)) / a)%dbl.

(** [double value(const Array& params, Time t) const] *)
Definition HullWhiteImpl_value
    (self : HullWhiteImpl) (params : Array) (t : Time) : M D :=
  forwardRate <- query_forward (termStructure_ self) t ;;
  let temp := HullWhiteImpl_temp (a_ self) (sigma_ self) t in
  ret (forwardRate + lit_half * temp * temp)%dbl.

(** [HullWhiteImpl] seen as a [ParameterImpl]. *)
Definition HullWhiteImpl_impl (self : HullWhiteImpl) : ParameterImpl :=
  {| value := HullWhiteImpl_value self |}.

(** Modelled from the spec: [TermStructureFittingParameter] (parameter.hpp)
    is a [Parameter] that only wraps the implementation it is given and
    has no parameters of its own. *)
Definition TermStructureFittingParameter (impl : ParameterImpl) : M Parameter_ :=
  ret {| params_ := []; impl_ := impl |}.

(** The constructor of [HullWhite::FittingParameter]. *)
Definition FittingParameter
    (termStructure : RelinkableHandle) (a sigma : D) : M Parameter_ :=
  impl <- HullWhiteImpl_new termStructure a sigma ;;
  TermStructureFittingParameter (HullWhiteImpl_impl impl).

(** ** [HullWhite::Dynamics] *)

(** [OrnsteinUhlenbeckProcess(a, sigma)], held by the base class
    [ShortRateDynamics]. *)
Record OrnsteinUhlenbeckProcess : Type := {
  speed_      : D;
  volatility_ : D
}.

Record Dynamics : Type := {
  process_ : OrnsteinUhlenbeckProcess;
  fitting_ : Parameter_
}.

Definition Dynamics_new (fitting : Parameter_) (a sigma : D) : Dynamics :=
  {| process_ := {| speed_ := a; volatility_ := sigma |};
     fitting_ := fitting |}.

(** [double variable(Time t, Rate r) const { return r - fitting_(t); }] *)
Definition variable (self : Dynamics) (t : Time) (r : Rate) : M D :=
  phi <- Parameter_call (fitting_ self) t ;;
  ret (r - phi)%dbl.

(** [double shortRate(Time t, double x) const { return x + fitting_(t); }] *)
Definition shortRate (self : Dynamics) (t : Time) (x : D) : M D :=
  phi <- Parameter_call (fitting_ self) t ;;
  ret (x + phi)%dbl.

(** ** [HullWhite] *)

(** The state of the model the header shows: the curve handle of
    [TermStructureConsistentModel], the constants [a()] and [sigma()] of
    [Vasicek], and the member [phi_]. *)
Record HullWhite : Type := {
  termStructure : RelinkableHandle;
  a     : D;
  sigma : D;
  phi_  : Parameter_
}.

(** [HullWhite::dynamics() const] *)
Definition dynamics (self : HullWhite) : Dynamics :=
  Dynamics_new (phi_ self) (a self) (sigma self).

(** ** The bond-price functions [B] and [A] *)

Section BondPrice.
(** The bound under which the spec calls [a] very small; it gives no
    number. *)
Variable small_a : D.

(** Modelled from the spec: [Vasicek::B] (vasicek.hpp is not among the
    sources).  B(t,T) = (1 - e^(-a(T-t)))/a, and when [a] is very small
    the continuous limit T - t is used instead. *)
Definition B (self : HullWhite) (t T : Time) : D :=
  if (a self <? small_a)%dbl then (T - t)%dbl
  else ((lit_one - QL_EXP (- a self * (T - t))) / a self)%dbl.

(** Modelled from the spec: [HullWhite::A] is declared in the header and
    defined in hullwhite.cpp, which is not among the sources.  A(t,T) is
    the ratio of the discount factors at T and t, corrected by the
    model's own variance term; the correction is the closed form of the
    Hull-White model,
    exp(B(t,T) f(t) - (sigma B(t,T))^2 (1 - e^(-2at)) / (4a)),
    in which (1 - e^(-2at))/a is B(0,2t). *)
Definition A (self : HullWhite) (t T : Time) : M D :=
  discount1 <- query_discount (termStructure self) t ;;
  discount2 <- query_discount (termStructure self) T ;;
  forwardRate <- query_forward (termStructure self) t ;;
  let temp := (sigma self * B self t T)%dbl in
  let v := (B self t T * forwardRate
            - lit_quarter * temp * temp * B self lit_zero (lit_two * t))%dbl in
  ret (QL_EXP v * discount2 / discount1)%dbl.
End BondPrice.

(** Modelled from the spec: [HullWhite::generateParameters] (defined in
    hullwhite.cpp) rebuilds the fitting parameter from the current curve
    handle and constants and replaces the member [phi_]; it returns
    nothing. *)
Definition generateParameters (self : HullWhite) : M HullWhite :=
  phi <- FittingParameter (termStructure self) (a self) (sigma self) ;;
  ret {| termStructure := termStructure self;
         a := a self; sigma := sigma self; phi_ := phi |}.

(** [n] separate evaluations of [c], one after the other, each in the
    world the one before left (a throwing one included): the world after
    the last. *)
Fixpoint evaluations {X} (c : M X) (n : nat) (w : World) : World :=
  match n with
  | O => w
  | S k => evaluations c k (world_after c w)
  end.

End Embedding.

Arguments TermStructure : clear implicits.
Arguments World : clear implicits.
Arguments M : clear implicits.

Notation "x <- c ;; k" := (bind c (fun x => k))
  (at level 61, c at next level, right associativity).

(** ** The two readings of [double] *)

(** A [double] as the real number it stands for; [QL_EXP] is the
    exponential. *)
#[export] Instance ExactReal : Double R := {|
  lit_one  := 1%R;
  lit_half := 0.5%R;
  lit_zero := 0%R;
  lit_two  := 2%R;
  lit_quarter := 0.25%R;
  dadd := Rplus;
  dsub := Rminus;
  dmul := Rmult;
  ddiv := Rdiv;
  dneg := Ropp;
  dltb := fun x y => if Rlt_dec x y then true else false;
  QL_EXP := exp
|}.

(** A [double] as an IEEE 754 binary64 value, rounding to nearest even.
    [std::exp] belongs to the C library: it is a parameter. *)
Definition Binary64 (libm_exp : float -> float) : Double float := {|
  lit_one  := 1%float;
  lit_half := 0.5%float;
  lit_zero := 0%float;
  lit_two  := 2%float;
  lit_quarter := 0.25%float;
  dadd := PrimFloat.add;
  dsub := PrimFloat.sub;
  dmul := PrimFloat.mul;
  ddiv := PrimFloat.div;
  dneg := PrimFloat.opp;
  dltb := PrimFloat.ltb;
  QL_EXP := libm_exp
|}.

(** A curve whose forward rate is [f] and whose discount factor is [d] at
    every time, and the world in which every handle is linked to it and no
    query has been made. *)
Definition flat_curve {D Error : Type} (f d : D) : TermStructure D Error :=
  {| forward := fun _ => Return f; discount := fun _ => Return d |}.

Definition flat_world {D Error : Type} (f d : D) : World D Error :=
  {| link := fun _ => flat_curve f d; queries := [] |}.

(** A curve with no time in its domain: every query throws [e]. *)
Definition empty_curve {D Error : Type} (e : Error) : TermStructure D Error :=
  {| forward := fun _ => Throw e; discount := fun _ => Throw e |}.

Definition empty_world {D Error : Type} (e : Error) : World D Error :=
  {| link := fun _ => empty_curve e; queries := [] |}.

(** The model with curve handle [h] and constants [a] and [sigma] whose
    parameters have been generated: its [phi_] is the parameter that
    [FittingParameter] builds from them. *)
Definition fitted_model {D : Type} {double_ops : Double D} {Error : Type}
    (h : RelinkableHandle) (a sigma : D) : @HullWhite D Error :=
  {| termStructure := h; a := a; sigma := sigma;
     phi_ := {| params_ := [];
                impl_ := HullWhiteImpl_impl
                           {| termStructure_ := h; a_ := a;
                              sigma_ := sigma |} |} |}.

(** The values of binary64 that are not finite numbers: NaN and the two
    infinities. *)
Definition SFnonfinite (s : spec_float) : bool :=
  match s with
  | S754_nan | S754_infinity _ => true
  | _ => false
  end.

(** [SFsigned s x]: the binary64 value [x] is NaN or has the sign bit
    [s]. *)
Definition SFsigned (s : bool) (x : spec_float) : bool :=
  match x with
  | S754_nan => true
  | S754_zero s' | S754_infinity s' | S754_finite s' _ _ => Bool.eqb s s'
  end.

(** * Properties *)

(** ** For every arithmetic: control flow, effects, failures *)

Section EmbeddingFacts.
Context {D : Type} {double_ops : Double D} {Error : Type}.
Implicit Types (w : World D Error) (h : RelinkableHandle) (t : D).

(** One evaluation of [value], step by step: the curve linked to the
    handle is asked for its forward rate at [t], the query is recorded,
    and the rate, when there is one, is shifted by half the square of
    the bracket. *)
Lemma HullWhiteImpl_value_run (self : HullWhiteImpl) (params : Array) t w :
  HullWhiteImpl_value self params t w =
  (result_map
     (fun forwardRate =>
        let temp := HullWhiteImpl_temp (a_ self) (sigma_ self) t in
        (forwardRate + lit_half * temp * temp)%dbl)
     (forward (link w (termStructure_ self)) t),
   {| link := link w;
      queries := queries w ++ [QForward (termStructure_ self) t] |}).
Proof.
  unfold HullWhiteImpl_value, bind, query_forward, ret.
  destruct (forward (link w (termStructure_ self)) t); reflexivity.
Qed.

(** What the caller gets from one evaluation. *)
Lemma HullWhiteImpl_value_outcome
    (self : HullWhiteImpl) (params : Array) t w :
  outcome (HullWhiteImpl_value self params t) w =
  result_map
    (fun forwardRate =>
       let temp := HullWhiteImpl_temp (a_ self) (sigma_ self) t in
       (forwardRate + lit_half * temp * temp)%dbl)
    (forward (link w (termStructure_ self)) t).
Proof. unfold outcome. now rewrite HullWhiteImpl_value_run. Qed.

(** The constructor returns the parameter that wraps a [HullWhiteImpl]
    holding the handle and the constants, in an unchanged world. *)
Lemma FittingParameter_run h (a sigma : D) w :
  FittingParameter h a sigma w =
  (Return {| params_ := [];
             impl_ := HullWhiteImpl_impl
                        {| termStructure_ := h; a_ := a; sigma_ := sigma |} |},
   w).
Proof. reflexivity. Qed.

Lemma evaluations_value_queries (self : HullWhiteImpl) (params : Array) t n :
  forall w,
    queries (evaluations (HullWhiteImpl_value self params t) n w) =
    queries w ++ repeat (QForward (termStructure_ self) t) n.
Proof.
  induction n as [|n IH]; intros w; simpl.
  - now rewrite app_nil_r.
  - rewrite IH. unfold world_after. rewrite HullWhiteImpl_value_run. simpl.
    now rewrite <- app_assoc.
Qed.

(** C2. For every time [t] and all [r] and [x], [variable(t, r)] is
    [r - phi(t)] and [shortRate(t, x)] is [x + phi(t)], where [phi(t)] is
    what the evaluation at [t] of the fitting parameter held by the
    [Dynamics] object returns; neither does anything but that evaluation
    (and when it throws, so do they). *)
Theorem dynamics_variable_shortRate (self : Dynamics) t (r x : D) w :
  let phi := Parameter_call (fitting_ self) t in
  (outcome (variable self t r) w
     = result_map (fun phi_t => (r - phi_t)%dbl) (outcome phi w)
   /\ world_after (variable self t r) w = world_after phi w)
  /\
  (outcome (shortRate self t x) w
     = result_map (fun phi_t => (x + phi_t)%dbl) (outcome phi w)
   /\ world_after (shortRate self t x) w = world_after phi w).
Proof.
  unfold variable, shortRate, outcome, world_after, bind, ret; simpl.
  destruct (Parameter_call (fitting_ self) t w) as [[phi_t|e] w'];
    repeat split.
Qed.

(** C6. Constructing a [FittingParameter] makes no query of a term
    structure: it returns the parameter and leaves the world, its list
    of queries included, as it was.  The forward rate is looked up when
    the parameter is evaluated: one evaluation at [t] adds exactly the
    query [forward(t)] of the captured handle, and [n] evaluations at
    the same [t] add [n] of them; nothing is kept from one evaluation
    to the next. *)
Theorem FittingParameter_lookup_deferred h (a sigma : D) w0 :
  exists p,
    FittingParameter h a sigma w0 = (Return p, w0)
    /\ (forall t w,
          queries (world_after (Parameter_call p t) w)
          = queries w ++ [QForward h t])
    /\ (forall t n w,
          queries (evaluations (Parameter_call p t) n w)
          = queries w ++ repeat (QForward h t) n).
Proof.
  eexists. split; [apply FittingParameter_run|]. split.
  - intros t w. unfold Parameter_call, world_after; simpl.
    now rewrite HullWhiteImpl_value_run.
  - intros t n w. unfold Parameter_call; simpl.
    exact (evaluations_value_queries
             {| termStructure_ := h; a_ := a; sigma_ := sigma |} [] t n w).
Qed.

(** C7. An evaluation of the fitting parameter at [t] throws exactly
    when the forward-rate query of the curve at [t] throws, and it throws
    the very error of the curve: there is no other source of failure. *)
Theorem value_throws_iff_forward_throws
    (self : HullWhiteImpl) (params : Array) t w (e : Error) :
  outcome (HullWhiteImpl_value self params t) w = Throw e
  <-> forward (link w (termStructure_ self)) t = Throw e.
Proof.
  rewrite HullWhiteImpl_value_outcome.
  destruct (forward (link w (termStructure_ self)) t) as [f|e']; simpl.
  - split; discriminate.
  - split; intros H; exact H.
Qed.

(** C9. The value does not depend on the array [params] passed to the
    implementation: with the same captured curve handle, [a] and [sigma]
    and the same [t], any two arrays give the same result in every world
    (the same value or error, and the same world after). *)
Theorem value_ignores_params
    (self : HullWhiteImpl) (p1 p2 : Array) t w :
  HullWhiteImpl_value self p1 t w = HullWhiteImpl_value self p2 t w.
Proof. now rewrite !HullWhiteImpl_value_run. Qed.

(** The parameter holds the handle, not the curve: once the handle is
    relinked, an evaluation asks the curve it is linked to then. *)
Theorem value_after_relink
    (self : HullWhiteImpl) (params : Array) (ts : TermStructure D Error) t w :
  outcome (_ <- linkTo (termStructure_ self) ts ;;
           HullWhiteImpl_value self params t) w
  = result_map
      (fun forwardRate =>
         let temp := HullWhiteImpl_temp (a_ self) (sigma_ self) t in
         (forwardRate + lit_half * temp * temp)%dbl)
      (forward ts t).
Proof.
  unfold outcome, bind, linkTo. rewrite HullWhiteImpl_value_run. simpl.
  now rewrite Nat.eqb_refl.
Qed.

(** On a curve with no time in its domain the evaluation throws the error
    of the curve, and the query has been made. *)
Example value_on_empty_curve
    (self : HullWhiteImpl) (params : Array) t (e : Error) :
  HullWhiteImpl_value self params t (empty_world e)
  = (Throw e,
     {| link := fun _ => empty_curve e;
        queries := [QForward (termStructure_ self) t] |}).
Proof. now rewrite HullWhiteImpl_value_run. Qed.

(** [dynamics()] hands the model's own [phi_] to the dynamics, with an
    Ornstein-Uhlenbeck process of the model's [a] and [sigma]. *)
Theorem dynamics_holds_phi (self : @HullWhite D Error) :
  fitting_ (dynamics self) = phi_ self
  /\ speed_ (process_ (dynamics self)) = a self
  /\ volatility_ (process_ (dynamics self)) = sigma self.
Proof. repeat split. Qed.

(** The regeneration hook, as the spec describes it, is one construction:
    it makes no query either, and keeps the handle and the constants. *)
Remark generateParameters_no_query (self : @HullWhite D Error) w :
  exists self',
    generateParameters self w = (Return self', w)
    /\ termStructure self' = termStructure self
    /\ a self' = a self /\ sigma self' = sigma self.
Proof.
  unfold generateParameters, bind. rewrite FittingParameter_run.
  eexists. split; [reflexivity|]. repeat split.
Qed.

End EmbeddingFacts.

(** ** In exact real arithmetic: the formulas *)

Section ExactRealFacts.
Context {Error : Type}.
Implicit Types (w : World R Error) (self : @HullWhiteImpl R) (t : R).
Local Open Scope R_scope.

Lemma HullWhiteImpl_temp_real (a sigma t : R) :
  HullWhiteImpl_temp a sigma t = sigma * (1 - exp (- a * t)) / a.
Proof. reflexivity. Qed.

Lemma value_real self (params : Array) t w :
  outcome (HullWhiteImpl_value self params t) w =
  result_map
    (fun f => f + 0.5 * (HullWhiteImpl_temp (a_ self) (sigma_ self) t) ^ 2)
    (forward (link w (termStructure_ self)) t).
Proof.
  rewrite HullWhiteImpl_value_outcome.
  destruct (forward (link w (termStructure_ self)) t) as [f|e]; simpl;
    [|reflexivity].
  f_equal. ring.
Qed.


(** C8 (on [A] and [B] as modelled from the spec). For every time [t]
    at which the curve has a forward rate and a discount factor, the
    discount factor not being 0, the bond-price function at equal dates
    is A(t, t) = 1, and B(t, t) = 0, whatever bound is taken for a very
    small [a]. *)
Theorem degenerate_bond
    (small_a : R) (self : @HullWhite R Error) t (f d : R) w :
  forward (link w (termStructure self)) t = Return f ->
  discount (link w (termStructure self)) t = Return d ->
  d <> 0 ->
  outcome (A small_a self t t) w = Return 1
  /\ B small_a self t t = 0.
Proof.
  intros Hf Hd Hd0.
  assert (HB : B small_a self t t = 0).
  { unfold B; simpl. destruct (Rlt_dec (a self) small_a); [ring|].
    replace (- a self * (t - t)) with 0 by ring. rewrite exp_0.
    unfold Rdiv. ring. }
  split; [|exact HB].
  unfold outcome, A, bind, query_discount, query_forward, ret; simpl.
  rewrite Hd, Hf; simpl. rewrite HB. f_equal.
  replace (0 * f - 0.25 * (sigma self * 0) * (sigma self * 0)
           * B small_a self 0 (2 * t)) with 0 by ring.
  rewrite exp_0. field. exact Hd0.
Qed.

End ExactRealFacts.

(** ** In binary64: the division by [a] at [a = 0] *)

Section Binary64Facts.
Variable libm_exp : float -> float.
Context {Error : Type}.
Local Open Scope float_scope.

Lemma nonfinite_is_not_finite (x : float) :
  SFnonfinite (Prim2SF x) = true -> is_finite x = false.
Proof.
  unfold is_finite, is_nan, is_infinity.
  rewrite !eqb_spec, abs_spec.
  change (Prim2SF infinity) with (S754_infinity false).
  destruct (Prim2SF x) as [| [|] | |]; simpl; try discriminate; reflexivity.
Qed.

Lemma is_zero_spec (x : float) :
  is_zero x = true -> exists s, Prim2SF x = S754_zero s.
Proof.
  unfold is_zero. rewrite eqb_spec.
  change (Prim2SF zero) with (S754_zero false).
  destruct (Prim2SF x) as [s|[|]| |[|] m e]; simpl; try discriminate.
  intros _. now exists s.
Qed.

(** Whatever is divided by a zero, the quotient is not finite. *)
Lemma div_by_zero_nonfinite (x y : float) :
  is_zero y = true -> SFnonfinite (Prim2SF (x / y)) = true.
Proof.
  intros Hy. destruct (is_zero_spec y Hy) as [s Hs].
  rewrite div_spec, Hs. unfold SF64div, SFdiv.
  destruct (Prim2SF x); reflexivity.
Qed.

Lemma half_nonfinite (x : float) :
  SFnonfinite (Prim2SF x) = true -> SFnonfinite (Prim2SF (0.5 * x)) = true.
Proof.
  rewrite mul_spec. unfold SF64mul, SFmul.
  destruct (Prim2SF x); simpl; try discriminate; reflexivity.
Qed.

Lemma mul_nonfinite (x y : float) :
  SFnonfinite (Prim2SF x) = true -> SFnonfinite (Prim2SF y) = true ->
  SFnonfinite (Prim2SF (x * y)) = true.
Proof.
  rewrite mul_spec. unfold SF64mul, SFmul.
  destruct (Prim2SF x), (Prim2SF y); simpl; try discriminate; reflexivity.
Qed.

Lemma add_nonfinite (x y : float) :
  SFnonfinite (Prim2SF y) = true -> SFnonfinite (Prim2SF (x + y)) = true.
Proof.
  rewrite add_spec. unfold SF64add, SFadd.
  destruct (Prim2SF x) as [| [|] | |], (Prim2SF y) as [| [|] | |];
    simpl; try discriminate; reflexivity.
Qed.

(** With [a] a zero, every evaluation that returns returns a value that
    is not finite. *)
Lemma value_zero_speed (h : RelinkableHandle) (a sigma : float)
    (params : Array) (t : float) (w : World float Error) (v : float) :
  is_zero a = true ->
  outcome (HullWhiteImpl_value (double_ops := Binary64 libm_exp)
             {| termStructure_ := h; a_ := a; sigma_ := sigma |} params t) w
  = Return v ->
  is_finite v = false.
Proof.
  intros Ha. rewrite HullWhiteImpl_value_outcome. simpl.
  destruct (forward (link w h) t) as [f|e]; simpl; [|discriminate].
  intros [= <-]. apply nonfinite_is_not_finite.
  set (temp := HullWhiteImpl_temp (double_ops := Binary64 libm_exp) a sigma t).
  assert (Htemp : SFnonfinite (Prim2SF temp) = true)
    by (apply div_by_zero_nonfinite; exact Ha).
  apply add_nonfinite, mul_nonfinite; [|exact Htemp].
  apply half_nonfinite, Htemp.
Qed.

End Binary64Facts.

(** C4, the claim as stated fails. With [a = 0], [sigma = 0.25] and
    [t = 1] on a curve whose forward rate is 0.5 everywhere, the limiting
    case would return 0.5 + 0.5 (0.25 * 1)^2; no implementation of
    [QL_EXP] makes the evaluation return it. *)
Lemma zero_speed_is_not_the_limit :
  ~ exists libm_exp : float -> float,
      outcome (HullWhiteImpl_value (double_ops := Binary64 libm_exp)
                 {| termStructure_ := 0; a_ := 0%float; sigma_ := 0.25%float |}
                 [] 1%float)
              (flat_world (Error := unit) 0.5%float 1%float)
      = Return (0.5 + 0.5 * ((0.25 * 1) * (0.25 * 1)))%float.
Proof.
  intros [libm_exp H].
  apply value_zero_speed in H; [|reflexivity].
  vm_compute in H. discriminate.
Qed.

(** The evaluation in binary64, operation by operation in the order of
    the source: every operation rounds. *)
Theorem value_binary64 (libm_exp : float -> float) (Error : Type)
    (self : HullWhiteImpl) (params : Array) (t : float)
    (w : World float Error) :
  outcome (HullWhiteImpl_value (double_ops := Binary64 libm_exp)
             self params t) w
  = result_map
      (fun forwardRate =>
         let temp :=
           (sigma_ self * (1 - libm_exp (- a_ self * t)) / a_ self)%float in
         (forwardRate + 0.5 * temp * temp)%float)
      (forward (link w (termStructure_ self)) t).
Proof. now rewrite HullWhiteImpl_value_outcome. Qed.

(** With an exponential that is right at the only argument it gets there,
    [QL_EXP(-0.0) = 1.0], the value at [a = 0] is NaN. *)
Remark zero_speed_value_is_nan (libm_exp : float -> float) :
  libm_exp (-0)%float = 1%float ->
  outcome (HullWhiteImpl_value (double_ops := Binary64 libm_exp)
             {| termStructure_ := 0; a_ := 0%float; sigma_ := 0.25%float |}
             [] 1%float)
          (flat_world (Error := unit) 0.5%float 1%float)
  = Return nan.
Proof.
  intros H. rewrite HullWhiteImpl_value_outcome.
  cbn -[PrimFloat.add PrimFloat.sub PrimFloat.mul PrimFloat.div PrimFloat.opp].
  change (- 0 * 1)%float with (-0)%float. rewrite H. reflexivity.
Qed.


(** ** The statements at concrete inputs *)

(** The scenario of the spec: on a flat curve with forward rate 5%, with
    [a = 0.1] and [sigma = 0.01], phi(1) is
    0.05 + 0.5 (0.01 (1 - e^(-0.1)) / 0.1)^2. *)
Example flat_curve_scenario :
  outcome (HullWhiteImpl_value
             {| termStructure_ := 0%nat; a_ := 0.1%R; sigma_ := 0.01%R |}
             [] 1%R) (flat_world (Error := unit) 0.05%R 1%R)
  = Return (0.05 + 0.5 * (0.01 * (1 - exp (-0.1)) / 0.1) ^ 2)%R.
Proof.
  rewrite value_real.
  cbn [result_map flat_world flat_curve link forward termStructure_ a_ sigma_].
  rewrite HullWhiteImpl_temp_real. f_equal.
  replace (- (0.1) * 1)%R with (-0.1)%R by lra. reflexivity.
Qed.

(** The degenerate bond at [t = 1] for the model with [a = 0.1] and
    [sigma = 0.01] on the curve whose forward rate is 0.05 and whose
    discount factor is 0.9 everywhere. *)
Lemma degenerate_bond_witness :
  let p := {| params_ := [];
              impl_ := HullWhiteImpl_impl
                         {| termStructure_ := 0%nat; a_ := 0.1%R;
                            sigma_ := 0.01%R |} |} in
  let self := {| termStructure := 0%nat; a := 0.1%R; sigma := 0.01%R;
                 phi_ := p |} in
  let w := flat_world (Error := unit) 0.05%R 0.9%R in
  (forward (link w (termStructure self)) 1%R = Return 0.05%R
   /\ discount (link w (termStructure self)) 1%R = Return 0.9%R
   /\ 0.9%R <> 0%R)
  /\ outcome (A 0.001%R self 1%R 1%R) w = Return 1%R
  /\ B 0.001%R self 1%R 1%R = 0%R.
Proof.
  split; [repeat split; lra|].
  apply (degenerate_bond (Error := unit) 0.001%R
           {| termStructure := 0%nat; a := 0.1%R; sigma := 0.01%R;
              phi_ := {| params_ := [];
                         impl_ := HullWhiteImpl_impl
                                    {| termStructure_ := 0%nat; a_ := 0.1%R;
                                       sigma_ := 0.01%R |} |} |}
           1%R 0.05%R 0.9%R (flat_world 0.05%R 0.9%R));
    [reflexivity|reflexivity|lra].
Defined.

(** * Further properties of the header *)

(** ** The dynamics of a model whose [phi_] is fitted *)

Section FittedDynamics.
Context {D : Type} {double_ops : Double D} {Error : Type}.
Implicit Types (w : World D Error) (t : D).

(** When [phi_] is the parameter [FittingParameter] builds from the
    model's own handle and constants, calling it is calling [value] of a
    [HullWhiteImpl] that holds them. *)
Lemma fitted_phi_call (self : @HullWhite D Error) w0 :
  outcome (FittingParameter (termStructure self) (a self) (sigma self)) w0
  = Return (phi_ self) ->
  forall t w,
    Parameter_call (fitting_ (dynamics self)) t w
    = HullWhiteImpl_value
        {| termStructure_ := termStructure self;
           a_ := a self; sigma_ := sigma self |} [] t w.
Proof.
  unfold outcome. rewrite FittingParameter_run. simpl.
  intros [= <-] t w. reflexivity.
Qed.

(** Each call of [variable] or [shortRate] on the dynamics of a fitted
    model makes exactly one forward query of the model's curve handle at
    [t], relinks nothing, and throws exactly when that query throws, with
    the error of the curve. *)
Theorem dynamics_single_lookup (self : @HullWhite D Error) w0 :
  outcome (FittingParameter (termStructure self) (a self) (sigma self)) w0
  = Return (phi_ self) ->
  forall t (r x : D) w,
    let after :=
      {| link := link w;
         queries := queries w ++ [QForward (termStructure self) t] |} in
    world_after (variable (dynamics self) t r) w = after
    /\ world_after (shortRate (dynamics self) t x) w = after
    /\ (forall e, outcome (variable (dynamics self) t r) w = Throw e
                  <-> forward (link w (termStructure self)) t = Throw e)
    /\ (forall e, outcome (shortRate (dynamics self) t x) w = Throw e
                  <-> forward (link w (termStructure self)) t = Throw e).
Proof.
  intros Hfit t r x w.
  unfold variable, shortRate, world_after, outcome, bind, ret.
  rewrite (fitted_phi_call self w0 Hfit), HullWhiteImpl_value_run. simpl.
  destruct (forward (link w (termStructure self)) t) as [f|e']; simpl;
    repeat split; try discriminate; auto.
Qed.

(** The round trip [variable(t, shortRate(t, x))] on the dynamics of a
    fitted model asks the curve twice when it has a forward rate at [t];
    when it has none the first query throws and the second is never made.
    No handle is relinked, and the error is the curve's. *)
Theorem round_trip_lookups (self : @HullWhite D Error) w0 :
  outcome (FittingParameter (termStructure self) (a self) (sigma self)) w0
  = Return (phi_ self) ->
  forall t (x : D) w,
    let h := termStructure self in
    let trip := y <- shortRate (dynamics self) t x ;;
                variable (dynamics self) t y in
    queries (world_after trip w)
    = queries w ++ match forward (link w h) t with
                   | Return _ => [QForward h t; QForward h t]
                   | Throw _ => [QForward h t]
                   end
    /\ link (world_after trip w) = link w
    /\ (forall e, outcome trip w = Throw e <-> forward (link w h) t = Throw e).
Proof.
  intros Hfit t x w.
  unfold variable, shortRate, world_after, outcome, bind, ret.
  rewrite (fitted_phi_call self w0 Hfit), HullWhiteImpl_value_run. simpl.
  destruct (forward (link w (termStructure self)) t) as [f|e'] eqn:E; simpl.
  - rewrite (fitted_phi_call self w0 Hfit), HullWhiteImpl_value_run. simpl.
    rewrite E. simpl. rewrite <- app_assoc. simpl.
    repeat split; try discriminate.
  - repeat split; auto.
Qed.

End FittedDynamics.

(** ** The transforms of a fitted model and the sign of [sigma], in exact
    real arithmetic *)

Section ConvexityFacts.
Context {Error : Type}.
Implicit Types (w : World R Error) (t : R).
Local Open Scope R_scope.


(** The value depends on [sigma] through its square only: [sigma] and
    [- sigma] give the same outcome. *)
Theorem value_even_in_sigma
    (h : RelinkableHandle) (a sigma t : R) (params : Array) w :
  outcome (HullWhiteImpl_value
             {| termStructure_ := h; a_ := a; sigma_ := - sigma |}
             params t) w
  = outcome (HullWhiteImpl_value
               {| termStructure_ := h; a_ := a; sigma_ := sigma |}
               params t) w.
Proof.
  rewrite !value_real. cbn [termStructure_ a_ sigma_].
  destruct (forward (link w h) t) as [f|e]; [|reflexivity].
  cbn [result_map]. f_equal. rewrite !HullWhiteImpl_temp_real.
  unfold Rdiv. ring.
Qed.

End ConvexityFacts.

(** ** Edge cases of the evaluation in binary64 *)

Section Binary64Edge.
Variable libm_exp : float -> float.
Context {Error : Type}.
Local Open Scope float_scope.

Lemma is_nan_spec (x : float) :
  is_nan x = true -> Prim2SF x = S754_nan.
Proof.
  unfold is_nan. rewrite eqb_spec. unfold SFeqb, SFcompare.
  destruct (Prim2SF x) as [s|[|]| |[|] m e]; try discriminate; try reflexivity.
  - rewrite Z.compare_refl, Pos.compare_cont_refl. discriminate.
  - rewrite Z.compare_refl, Pos.compare_cont_refl. discriminate.
Qed.

Lemma nan_of_spec (x : float) : Prim2SF x = S754_nan -> x = nan.
Proof. intros H. now apply Prim2SF_inj. Qed.

Lemma zero_of_spec (x : float) (s : bool) :
  Prim2SF x = S754_zero s -> x = 0 \/ x = -0.
Proof.
  intros H. destruct s; [right|left]; now apply Prim2SF_inj.
Qed.

Lemma finite_spec (x : float) :
  is_finite x = true ->
  (exists s, Prim2SF x = S754_zero s)
  \/ (exists s m e, Prim2SF x = S754_finite s m e).
Proof.
  unfold is_finite, is_nan, is_infinity. rewrite !eqb_spec, abs_spec.
  change (Prim2SF infinity) with (S754_infinity false).
  destruct (Prim2SF x) as [s|[|]| |s m e]; simpl; try discriminate; intros _.
  - left. now exists s.
  - right. now exists s, m, e.
Qed.

Lemma finite_nonzero_spec (x : float) :
  is_finite x = true -> is_zero x = false ->
  exists s m e, Prim2SF x = S754_finite s m e.
Proof.
  intros Hf Hz. destruct (finite_spec x Hf) as [[s H]|H]; [|exact H].
  unfold is_zero in Hz. rewrite eqb_spec, H in Hz.
  destruct s; discriminate.
Qed.

(** At a time that is a zero, with a finite [sigma] and a finite [a]
    that is not a zero, the adjustment is computed without rounding: it
    is [+0.0]. *)
Lemma adjustment_at_time_zero (a sigma t : float) :
  libm_exp 0 = 1 -> libm_exp (-0) = 1 ->
  is_finite a = true -> is_zero a = false ->
  is_finite sigma = true ->
  is_zero t = true ->
  let temp := HullWhiteImpl_temp (double_ops := Binary64 libm_exp) a sigma t in
  0.5 * temp * temp = 0.
Proof.
  intros He0 He0' Hfa Hza Hfs Hzt temp.
  destruct (finite_nonzero_spec a Hfa Hza) as (sa & ma & ea & Pa).
  destruct (is_zero_spec t Hzt) as [st Pt].
  assert (Parg : exists s, Prim2SF (- a * t) = S754_zero s).
  { exists (xorb (negb sa) st). now rewrite mul_spec, opp_spec, Pa, Pt. }
  destruct Parg as [s1 Parg].
  assert (Hexp : libm_exp (- a * t) = 1).
  { destruct (zero_of_spec _ _ Parg) as [-> | ->]; assumption. }
  assert (Pnum : exists s, Prim2SF (sigma * (1 - libm_exp (- a * t)))
                           = S754_zero s).
  { rewrite Hexp. change (1 - 1) with 0. rewrite mul_spec.
    change (Prim2SF 0) with (S754_zero false).
    destruct (finite_spec sigma Hfs) as [[s ->]|(s & m & e & ->)];
      eexists; reflexivity. }
  destruct Pnum as [s2 Pnum].
  assert (Ptemp : Prim2SF temp = S754_zero (xorb s2 sa)).
  { unfold temp, HullWhiteImpl_temp. cbn [ddiv dmul dsub dneg lit_one QL_EXP Binary64].
    now rewrite div_spec, Pnum, Pa. }
  apply Prim2SF_inj. rewrite !mul_spec, Ptemp.
  change (Prim2SF 0.5) with (S754_finite false 4503599627370496 (-53)).
  change (Prim2SF 0) with (S754_zero false).
  unfold SF64mul, SFmul. now destruct (xorb s2 sa).
Qed.

(** In binary64, at [t = 0] the value is the forward rate plus [+0.0]: no
    rounding error enters, for every finite [sigma] and every finite [a]
    that is not a zero, provided [QL_EXP] is exact at the zeros. *)
Theorem value_at_time_zero_binary64 (h : RelinkableHandle)
    (a sigma : float) (params : Array) (t : float) (w : World float Error) :
  libm_exp 0 = 1 -> libm_exp (-0) = 1 ->
  is_finite a = true -> is_zero a = false ->
  is_finite sigma = true ->
  is_zero t = true ->
  outcome (HullWhiteImpl_value (double_ops := Binary64 libm_exp)
             {| termStructure_ := h; a_ := a; sigma_ := sigma |} params t) w
  = result_map (fun f => f + 0) (forward (link w h) t).
Proof.
  intros He0 He0' Hfa Hza Hfs Hzt.
  rewrite HullWhiteImpl_value_outcome. cbn [termStructure_ a_ sigma_].
  pose proof (adjustment_at_time_zero a sigma t He0 He0' Hfa Hza Hfs Hzt)
    as Hadj.
  cbv zeta in Hadj |- *. cbn [dadd dmul lit_half Binary64].
  now rewrite Hadj.
Qed.

(** Rounding keeps the sign it is given. *)
Lemma binary_round_aux_signed (s : bool) (m e : Z) (l : location) :
  SFsigned s (binary_round_aux prec emax s m e l) = true.
Proof.
  unfold binary_round_aux.
  destruct (shr_fexp prec emax m e l) as [mrs' e'].
  destruct (shr_fexp prec emax _ e' loc_Exact) as [mrs'' e''].
  destruct (shr_m mrs''); [| |reflexivity]; simpl.
  - apply Bool.eqb_reflx.
  - match goal with |- context [if ?c then _ else _] => destruct c end;
      apply Bool.eqb_reflx.
Qed.

(** The sign of a product is the exclusive or of the signs. *)
Lemma SFmul_signed (sx sy : bool) (x y : spec_float) :
  SFsigned sx x = true -> SFsigned sy y = true ->
  SFsigned (xorb sx sy) (SF64mul x y) = true.
Proof.
  unfold SF64mul, SFmul.
  destruct x as [s|s| |s m e], y as [s'|s'| |s' m' e']; simpl;
    intros Hx Hy; try reflexivity;
    apply Bool.eqb_prop in Hx; apply Bool.eqb_prop in Hy; subst;
    try apply Bool.eqb_reflx.
  apply binary_round_aux_signed.
Qed.

Lemma SFsigned_some (x : spec_float) : exists s, SFsigned s x = true.
Proof.
  destruct x as [s|s| |s m e]; [exists s|exists s|exists false|exists s];
    simpl; try reflexivity; apply Bool.eqb_reflx.
Qed.

(** A value that is NaN or has its sign bit clear is NaN or compares
    above zero. *)
Lemma signed_false_nonnegative (x : float) :
  SFsigned false (Prim2SF x) = true ->
  is_nan x = true \/ (0 <=? x) = true.
Proof.
  unfold is_nan. rewrite eqb_spec, leb_spec.
  change (Prim2SF 0) with (S754_zero false).
  destruct (Prim2SF x) as [[|]|[|]| |[|] m e]; simpl; try discriminate;
    intros _; (now left) || (now right).
Qed.

(** In binary64 the adjustment added to the forward rate is never
    negative, whatever [a], [sigma], [t] and the implementation of
    [QL_EXP] are: the value is the forward rate plus a number that is NaN
    or compares above zero. *)
Theorem adjustment_never_negative_binary64 (h : RelinkableHandle)
    (a sigma : float) (params : Array) (t : float) (w : World float Error) :
  exists adj : float,
    outcome (HullWhiteImpl_value (double_ops := Binary64 libm_exp)
               {| termStructure_ := h; a_ := a; sigma_ := sigma |} params t) w
    = result_map (fun f => f + adj) (forward (link w h) t)
    /\ (is_nan adj = true \/ (0 <=? adj) = true).
Proof.
  set (temp := HullWhiteImpl_temp (double_ops := Binary64 libm_exp) a sigma t).
  exists (0.5 * temp * temp). split.
  - now rewrite HullWhiteImpl_value_outcome.
  - apply signed_false_nonnegative.
    destruct (SFsigned_some (Prim2SF temp)) as [s Hs].
    rewrite mul_spec. replace false with (xorb (xorb false s) s)
      by (now destruct s).
    apply SFmul_signed; [|exact Hs].
    rewrite mul_spec. apply SFmul_signed; [reflexivity|exact Hs].
Qed.

(** NaN is never turned into a number: when [a] or [sigma] is NaN, or the
    forward rate the curve returns is, the value returned is NaN. *)
Theorem value_nan_propagates (h : RelinkableHandle)
    (a sigma : float) (params : Array) (t f : float) (w : World float Error) :
  is_nan a = true \/ is_nan sigma = true \/ is_nan f = true ->
  forward (link w h) t = Return f ->
  outcome (HullWhiteImpl_value (double_ops := Binary64 libm_exp)
             {| termStructure_ := h; a_ := a; sigma_ := sigma |} params t) w
  = Return nan.
Proof.
  intros Hnan Hf. rewrite HullWhiteImpl_value_outcome.
  cbn [termStructure_ a_ sigma_]. rewrite Hf. cbn [result_map]. f_equal.
  apply nan_of_spec.
  unfold HullWhiteImpl_temp.
  cbn [dadd ddiv dmul dsub dneg lit_one lit_half QL_EXP Binary64].
  set (y := 1 - libm_exp (- a * t)).
  assert (Htemp : is_nan f = true \/ Prim2SF (sigma * y / a) = S754_nan).
  { destruct Hnan as [H|[H|H]]; [right|right|now left].
    - rewrite div_spec, (is_nan_spec a H). unfold SF64div, SFdiv.
      now destruct (Prim2SF (sigma * y)).
    - rewrite div_spec, mul_spec, (is_nan_spec sigma H). reflexivity. }
  rewrite add_spec. destruct Htemp as [H|H].
  - now rewrite (is_nan_spec f H).
  - rewrite mul_spec, mul_spec, H. unfold SF64mul, SF64add, SFmul, SFadd.
    change (Prim2SF 0.5) with (S754_finite false 4503599627370496 (-53)).
    now destruct (Prim2SF f).
Qed.

(** Rounding commutes with a change of sign. *)
Lemma binary_round_aux_opp (s : bool) (m e : Z) (l : location) :
  binary_round_aux prec emax (negb s) m e l
  = SFopp (binary_round_aux prec emax s m e l).
Proof.
  unfold binary_round_aux.
  destruct (shr_fexp prec emax m e l) as [mrs' e'].
  destruct (shr_fexp prec emax _ e' loc_Exact) as [mrs'' e''].
  destruct (shr_m mrs''); try reflexivity.
  match goal with |- context [if ?c then _ else _] => destruct c end;
    reflexivity.
Qed.

Lemma SFmul_opp_l (x y : spec_float) :
  SF64mul (SFopp x) y = SFopp (SF64mul x y).
Proof.
  unfold SF64mul, SFmul.
  destruct x as [s|s| |s m e], y as [s'|s'| |s' m' e']; simpl;
    try reflexivity; try (now destruct s, s').
  rewrite <- binary_round_aux_opp. now destruct s, s'.
Qed.

Lemma SFopp_involutive (x : spec_float) : SFopp (SFopp x) = x.
Proof. destruct x as [s|s| |s m e]; simpl; now rewrite ?Bool.negb_involutive. Qed.

Lemma SFmul_opp_r (x y : spec_float) :
  SF64mul x (SFopp y) = SFopp (SF64mul x y).
Proof.
  unfold SF64mul, SFmul.
  destruct x as [s|s| |s m e], y as [s'|s'| |s' m' e']; simpl;
    try reflexivity; try (now destruct s, s').
  rewrite <- binary_round_aux_opp. now destruct s, s'.
Qed.

Lemma SFdiv_opp_l (x y : spec_float) :
  SF64div (SFopp x) y = SFopp (SF64div x y).
Proof.
  unfold SF64div, SFdiv.
  destruct x as [s|s| |s m e], y as [s'|s'| |s' m' e']; simpl;
    try reflexivity; try (now destruct s, s').
  destruct (SFdiv_core_binary prec emax (Zpos m) e (Zpos m') e')
    as [[mz ez] lz].
  rewrite <- binary_round_aux_opp. now destruct s, s'.
Qed.

(** In binary64 too the value depends on [sigma] through its square
    only: [- sigma] and [sigma] give the same outcome, bit for bit,
    whatever the implementation of [QL_EXP] is. *)
Theorem value_even_in_sigma_binary64 (h : RelinkableHandle)
    (a sigma : float) (params : Array) (t : float) (w : World float Error) :
  outcome (HullWhiteImpl_value (double_ops := Binary64 libm_exp)
             {| termStructure_ := h; a_ := a; sigma_ := - sigma |} params t) w
  = outcome (HullWhiteImpl_value (double_ops := Binary64 libm_exp)
               {| termStructure_ := h; a_ := a; sigma_ := sigma |} params t) w.
Proof.
  rewrite !HullWhiteImpl_value_outcome. cbn [termStructure_ a_ sigma_].
  unfold HullWhiteImpl_temp.
  cbn [dadd ddiv dmul dsub dneg lit_one lit_half QL_EXP Binary64].
  set (y := 1 - libm_exp (- a * t)).
  assert (Hadj : 0.5 * (- sigma * y / a) * (- sigma * y / a)
                 = 0.5 * (sigma * y / a) * (sigma * y / a)).
  { apply Prim2SF_inj. rewrite !mul_spec.
    assert (Htemp : Prim2SF (- sigma * y / a)
                    = SFopp (Prim2SF (sigma * y / a))).
    { now rewrite !div_spec, !mul_spec, opp_spec, SFmul_opp_l, SFdiv_opp_l. }
    now rewrite Htemp, !SFmul_opp_r, SFmul_opp_l, SFopp_involutive. }
  now rewrite Hadj.
Qed.

End Binary64Edge.

(** ** The further properties at concrete inputs *)

(** One call of each transform on the fitted model with [a = 0.1] and
    [sigma = 0.01], at [t = 1] on the flat curve of forward rate 0.05. *)
Lemma dynamics_single_lookup_witness :
  let self := fitted_model (Error := unit) 0%nat 0.1%R 0.01%R in
  let w := flat_world (Error := unit) 0.05%R 1%R in
  let after := {| link := link w; queries := [QForward 0%nat 1%R] |} in
  outcome (FittingParameter (termStructure self) (a self) (sigma self)) w
  = Return (phi_ self)
  /\ world_after (variable (dynamics self) 1%R 0.05%R) w = after
  /\ world_after (shortRate (dynamics self) 1%R 0%R) w = after
  /\ (forall e, outcome (variable (dynamics self) 1%R 0.05%R) w = Throw e
                <-> forward (link w (termStructure self)) 1%R = Throw e)
  /\ (forall e, outcome (shortRate (dynamics self) 1%R 0%R) w = Throw e
                <-> forward (link w (termStructure self)) 1%R = Throw e).
Proof.
  split; [reflexivity|].
  apply (dynamics_single_lookup
           (fitted_model (Error := unit) 0%nat 0.1%R 0.01%R)
           (flat_world 0.05%R 1%R) eq_refl 1%R 0.05%R 0%R
           (flat_world 0.05%R 1%R)).
Defined.

(** The round trip on the same model and curve: two queries. *)
Lemma round_trip_lookups_witness :
  let self := fitted_model (Error := unit) 0%nat 0.1%R 0.01%R in
  let w := flat_world (Error := unit) 0.05%R 1%R in
  let trip := y <- shortRate (dynamics self) 1%R 0%R ;;
              variable (dynamics self) 1%R y in
  outcome (FittingParameter (termStructure self) (a self) (sigma self)) w
  = Return (phi_ self)
  /\ queries (world_after trip w)
     = [] ++ [QForward 0%nat 1%R; QForward 0%nat 1%R]
  /\ link (world_after trip w) = link w
  /\ (forall e, outcome trip w = Throw e
                <-> forward (link w 0%nat) 1%R = Throw e).
Proof.
  split; [reflexivity|].
  apply (round_trip_lookups
           (fitted_model (Error := unit) 0%nat 0.1%R 0.01%R)
           (flat_world 0.05%R 1%R) eq_refl 1%R 0%R (flat_world 0.05%R 1%R)).
Defined.


(** Binary64 at [t = +0.0] with [a = 0.125], [sigma = 0.25] on the flat
    curve of forward rate 0.5, for an exponential that is 1 at the zeros. *)
Lemma value_at_time_zero_binary64_witness :
  let libm_exp := fun _ : float => 1%float in
  let w := flat_world (Error := unit) 0.5%float 1%float in
  (libm_exp 0%float = 1%float /\ libm_exp (-0)%float = 1%float
   /\ is_finite 0.125%float = true /\ is_zero 0.125%float = false
   /\ is_finite 0.25%float = true /\ is_zero 0%float = true)
  /\ outcome (HullWhiteImpl_value (double_ops := Binary64 libm_exp)
                {| termStructure_ := 0%nat; a_ := 0.125%float;
                   sigma_ := 0.25%float |} [] 0%float) w
     = result_map (fun f => (f + 0)%float) (forward (link w 0%nat) 0%float).
Proof.
  split; [repeat split|].
  apply (value_at_time_zero_binary64 (fun _ => 1%float) (Error := unit)
           0%nat 0.125%float 0.25%float [] 0%float
           (flat_world 0.5%float 1%float)); reflexivity.
Defined.

(** Binary64 with [a] NaN, on the flat curve of forward rate 0.5. *)
Lemma value_nan_propagates_witness :
  let libm_exp := fun _ : float => 1%float in
  let w := flat_world (Error := unit) 0.5%float 1%float in
  ((is_nan nan = true \/ is_nan 0.25%float = true \/ is_nan 0.5%float = true)
   /\ forward (link w 0%nat) 1%float = Return 0.5%float)
  /\ outcome (HullWhiteImpl_value (double_ops := Binary64 libm_exp)
                {| termStructure_ := 0%nat; a_ := nan; sigma_ := 0.25%float |}
                [] 1%float) w
     = Return nan.
Proof.
  split; [split; [left|]; reflexivity|].
  apply (value_nan_propagates (fun _ => 1%float) (Error := unit)
           0%nat nan 0.25%float [] 1%float 0.5%float
           (flat_world 0.5%float 1%float)); [left|]; reflexivity.
Defined.

(** * The round trip, small speeds and the sign of the adjustment *)

(** ** The round trip, for every arithmetic *)

Section RoundTrip.
Context {D : Type} {double_ops : Double D} {Error : Type}.
Implicit Types (w : World D Error) (t : D).


End RoundTrip.

(** ** On binary64 *)

Section Binary64Claims.
Variable libm_exp : float -> float.
Context {Error : Type}.
Local Open Scope float_scope.

(** When the numerator of the bracket is a zero and [a] is finite and
    not a zero, the adjustment is [+0.0]. *)
Lemma adjustment_of_zero_numerator (num a : float) (s : bool) :
  Prim2SF num = S754_zero s ->
  is_finite a = true -> is_zero a = false ->
  0.5 * (num / a) * (num / a) = 0.
Proof.
  intros Pnum Hfa Hza.
  destruct (finite_nonzero_spec a Hfa Hza) as (sa & ma & ea & Pa).
  assert (Ptemp : Prim2SF (num / a) = S754_zero (xorb s sa))
    by now rewrite div_spec, Pnum, Pa.
  apply Prim2SF_inj. rewrite !mul_spec, Ptemp.
  change (Prim2SF 0.5) with (S754_finite false 4503599627370496 (-53)).
  change (Prim2SF 0) with (S754_zero false).
  unfold SF64mul, SFmul. now destruct (xorb s sa).
Qed.


(** C4, as amended. Evaluation has no limiting case for a small
    mean-reversion speed: for every [a], a zero or not, the value is the
    forward rate plus [0.5*temp*temp] with the bracket [temp] computed as
    [sigma*(1 - QL_EXP(-a*t))/a], divided by [a] itself.  When [a] is a
    zero that is a division by zero, and for every curve, [sigma], [t] and
    implementation of [QL_EXP] the value returned is not a finite number:
    it is NaN or an infinity, not f(t) + 0.5 (sigma t)^2. *)
Theorem value_divides_by_a_for_every_a (h : RelinkableHandle)
    (a sigma : float) (params : Array) (t : float) (w : World float Error) :
  let run :=
    outcome (HullWhiteImpl_value (double_ops := Binary64 libm_exp)
               {| termStructure_ := h; a_ := a; sigma_ := sigma |}
               params t) w in
  run = result_map
          (fun f =>
             let temp := sigma * (1 - libm_exp (- a * t)) / a in
             f + 0.5 * temp * temp)
          (forward (link w h) t)
  /\ (is_zero a = true ->
      match run with
      | Return v => is_finite v = false
      | Throw e => forward (link w h) t = Throw e
      end).
Proof.
  intros run. subst run. split.
  - now rewrite HullWhiteImpl_value_outcome.
  - intros Ha.
    destruct (outcome _ w) as [v|e] eqn:E.
    + exact (value_zero_speed libm_exp h a sigma params t w v Ha E).
    + rewrite HullWhiteImpl_value_outcome in E. simpl in E.
      destruct (forward (link w h) t) as [f|e']; [discriminate|exact E].
Qed.

(** C5, as amended. The value computed does not tend to
    f(t) + 0.5 (sigma t)^2 as [a] tends to 0 from above: at every finite
    [a] that is not a zero at which [QL_EXP(-a*t)] returns [1.0] (a
    correctly rounded exponential does once a*t <= 2^-54), the
    difference [1 - QL_EXP(-a*t)] is [0], the bracket is a zero for every
    finite [sigma], and the value returned is the forward rate plus
    [+0.0]. *)
Theorem value_when_exp_returns_one (h : RelinkableHandle)
    (a sigma : float) (params : Array) (t : float) (w : World float Error) :
  libm_exp (- a * t) = 1 ->
  is_finite a = true -> is_zero a = false ->
  is_finite sigma = true ->
  outcome (HullWhiteImpl_value (double_ops := Binary64 libm_exp)
             {| termStructure_ := h; a_ := a; sigma_ := sigma |} params t) w
  = result_map (fun f => f + 0) (forward (link w h) t).
Proof.
  intros Hexp Hfa Hza Hfs.
  rewrite HullWhiteImpl_value_outcome. cbn [termStructure_ a_ sigma_].
  unfold HullWhiteImpl_temp.
  cbn [dadd ddiv dmul dsub dneg lit_one lit_half QL_EXP Binary64].
  rewrite Hexp. change (1 - 1) with 0.
  assert (Pnum : exists s, Prim2SF (sigma * 0) = S754_zero s).
  { rewrite mul_spec. change (Prim2SF 0) with (S754_zero false).
    destruct (finite_spec sigma Hfs) as [[s ->]|(s & m & e & ->)];
      eexists; reflexivity. }
  destruct Pnum as [s Pnum].
  now rewrite (adjustment_of_zero_numerator _ a s Pnum Hfa Hza).
Qed.


(** Without volatility there is no adjustment, as long as the
    exponential has not overflowed: with [sigma] a zero, [a] finite and
    not a zero and [1 - QL_EXP(-a*t)] finite, the value returned is the
    forward rate plus [+0.0]. *)
Theorem value_zero_volatility_binary64 (h : RelinkableHandle)
    (a sigma : float) (params : Array) (t : float) (w : World float Error) :
  is_zero sigma = true ->
  is_finite a = true -> is_zero a = false ->
  is_finite (1 - libm_exp (- a * t)) = true ->
  outcome (HullWhiteImpl_value (double_ops := Binary64 libm_exp)
             {| termStructure_ := h; a_ := a; sigma_ := sigma |} params t) w
  = result_map (fun f => f + 0) (forward (link w h) t).
Proof.
  intros Hzs Hfa Hza Hfy.
  rewrite HullWhiteImpl_value_outcome. cbn [termStructure_ a_ sigma_].
  unfold HullWhiteImpl_temp.
  cbn [dadd ddiv dmul dsub dneg lit_one lit_half QL_EXP Binary64].
  set (y := 1 - libm_exp (- a * t)) in *.
  destruct (is_zero_spec sigma Hzs) as [ss Ps].
  assert (Pnum : exists s, Prim2SF (sigma * y) = S754_zero s).
  { rewrite mul_spec, Ps.
    destruct (finite_spec y Hfy) as [[s ->]|(s & m & e & ->)];
      eexists; reflexivity. }
  destruct Pnum as [s Pnum].
  now rewrite (adjustment_of_zero_numerator _ a s Pnum Hfa Hza).
Qed.

End Binary64Claims.

(** ** The claims as stated fail on doubles *)


(** C5, the claim as stated fails. With [sigma = 1] and [t = 1] on a
    curve whose forward rate is 0 the limit would be 0.5; at [a = 2^-60],
    for every [QL_EXP] that returns [1.0] at [-2^-60], the value is not
    within 0.25 of it (it is 0). *)
Lemma small_speed_value_is_not_near_limit :
  ~ exists libm_exp : float -> float,
      libm_exp (-0x1p-60)%float = 1%float
      /\ exists v : float,
           outcome (HullWhiteImpl_value (double_ops := Binary64 libm_exp)
                      {| termStructure_ := 0; a_ := 0x1p-60%float;
                         sigma_ := 1%float |} [] 1%float)
                   (flat_world (Error := unit) 0%float 1%float)
           = Return v
           /\ (abs (v - 0.5) <? 0.25)%float = true.
Proof.
  intros (libm_exp & Hexp & v & Hv & Hnear).
  rewrite HullWhiteImpl_value_outcome in Hv.
  cbn -[PrimFloat.add PrimFloat.sub PrimFloat.mul PrimFloat.div PrimFloat.opp]
    in Hv.
  change (PrimFloat.mul (PrimFloat.opp 0x1p-60%float) 1%float)
    with (-0x1p-60)%float in Hv.
  rewrite Hexp in Hv.
  apply (f_equal (fun r => match r with Return x => x | Throw _ => nan end))
    in Hv.
  vm_compute in Hv. subst v.
  vm_compute in Hnear. discriminate.
Qed.


(** ** The amended statements at concrete inputs *)

(** The division by zero at [a = +0.0], [sigma = 0.25], [t = 1] on the
    curve whose forward rate is 0.5 everywhere. *)
Lemma value_divides_by_a_for_every_a_witness :
  let libm_exp := fun x : float => (1 + x)%float in
  let w := flat_world (Error := unit) 0.5%float 1%float in
  let run :=
    outcome (HullWhiteImpl_value (double_ops := Binary64 libm_exp)
               {| termStructure_ := 0; a_ := 0%float; sigma_ := 0.25%float |}
               [] 1%float) w in
  is_zero 0%float = true
  /\ match run with
     | Return v => is_finite v = false
     | Throw e => forward (link w 0) 1%float = Throw e
     end.
Proof.
  split; [reflexivity|].
  apply (proj2 (value_divides_by_a_for_every_a
                  (fun x => (1 + x)%float) 0 0%float 0.25%float
                  [] 1%float (flat_world (Error := unit) 0.5%float 1%float))).
  reflexivity.
Defined.

(** The cancellation at [a = 2^-60], [sigma = 1], [t = 1] on the curve
    whose forward rate is 0.5, with the first-order exponential [1 + x],
    which rounds to [1.0] at [-2^-60]. *)
Lemma value_when_exp_returns_one_witness :
  let libm_exp := fun x : float => (1 + x)%float in
  let w := flat_world (Error := unit) 0.5%float 1%float in
  (libm_exp (- 0x1p-60 * 1)%float = 1%float
   /\ is_finite 0x1p-60%float = true /\ is_zero 0x1p-60%float = false
   /\ is_finite 1%float = true)
  /\ outcome (HullWhiteImpl_value (double_ops := Binary64 libm_exp)
                {| termStructure_ := 0; a_ := 0x1p-60%float;
                   sigma_ := 1%float |} [] 1%float) w
     = result_map (fun f => (f + 0)%float) (forward (link w 0) 1%float).
Proof.
  split; [repeat split|].
  apply (value_when_exp_returns_one (fun x => (1 + x)%float) (Error := unit)
           0 0x1p-60%float 1%float [] 1%float
           (flat_world 0.5%float 1%float)); reflexivity.
Defined.


(** No volatility at [a = 0.125], [t = 1] on the curve whose forward rate
    is 0.5, with the exponential [1 + x]. *)
Lemma value_zero_volatility_binary64_witness :
  let libm_exp := fun x : float => (1 + x)%float in
  let w := flat_world (Error := unit) 0.5%float 1%float in
  (is_zero 0%float = true
   /\ is_finite 0.125%float = true /\ is_zero 0.125%float = false
   /\ is_finite (1 - libm_exp (- 0.125 * 1))%float = true)
  /\ outcome (HullWhiteImpl_value (double_ops := Binary64 libm_exp)
                {| termStructure_ := 0; a_ := 0.125%float;
                   sigma_ := 0%float |} [] 1%float) w
     = result_map (fun f => (f + 0)%float) (forward (link w 0) 1%float).
Proof.
  split; [repeat split|].
  apply (value_zero_volatility_binary64 (fun x => (1 + x)%float)
           (Error := unit) 0 0.125%float 0%float [] 1%float
           (flat_world 0.5%float 1%float)); reflexivity.
Defined.
